(** * typia-utils: the OpenAI projection of a typia JSON-Schema document

    A shallow embedding of [src/openai/mod.ts]: the two exported functions
    [typiaJsonToOpenAIJsonSchema] and [typiaJsonToOpenAIResponse], the
    JavaScript operations they use ([== null], [Object.keys], [Array.at],
    property reads, object literals) and the properties the specification
    states about them. The specification calls the two functions [project]
    and [projectAsEnvelope], and their two errors [MissingSchemaMap] and
    [NoSchemaFound].

    Objects live in a heap and are designated by references, so that
    "the same object" and "an equal object" are different statements. *)

From Stdlib Require Import ZArith NArith Ascii String.
From stdpp Require Import base option list strings sorting.

Local Open Scope string_scope.
Local Open Scope list_scope.
Local Open Scope nat_scope.

(** ** JavaScript values *)

(** References are allocation indices. *)
Abbreviation loc := nat (only parsing).

(** A value is a primitive or a reference to an object of the heap. Numbers
    only occur inside schema bodies, which the code never inspects. *)
Inductive value :=
  | VUndefined
  | VNull
  | VBoolean (b : bool)
  | VNumber (n : Z)
  | VString (s : string)
  | VRef (l : loc).

(** An object: its own enumerable string-keyed data properties, in the order
    in which they were created. *)
Abbreviation object := (list (string * value)) (only parsing).

(** The heap: the object at reference [l] is the [l]-th one allocated. *)
Abbreviation heap := (list (list (string * value))) (only parsing).

(** A TypeScript position of type [T | null | undefined]. [Absent] is the
    value [undefined], which is also what destructuring gives for a
    property that is missing. *)
Inductive nullable (A : Type) :=
  | Absent
  | IsNull
  | Present (a : A).
Arguments Absent {A}.
Arguments IsNull {A}.
Arguments Present {A} a.

(** [x == null]: true of [undefined] and of [null], of nothing else. *)
Definition eq_null {A} (x : nullable A) : bool :=
  match x with
  | Absent | IsNull => true
  | Present _ => false
  end.

(** The JavaScript value of a nullable position. *)
Definition nullable_value {A} (inj : A → value) (x : nullable A) : value :=
  match x with
  | Absent => VUndefined
  | IsNull => VNull
  | Present a => inj a
  end.

(** The value of a variable that holds a reference or [undefined]. *)
Definition ref_value (r : option loc) : value :=
  match r with
  | Some l => VRef l
  | None => VUndefined
  end.

Definition value_eqb (v w : value) : bool :=
  match v, w with
  | VUndefined, VUndefined => true
  | VNull, VNull => true
  | VBoolean a, VBoolean b => Bool.eqb a b
  | VNumber a, VNumber b => Z.eqb a b
  | VString a, VString b => String.eqb a b
  | VRef a, VRef b => Nat.eqb a b
  | _, _ => false
  end.

(** ** Exceptions and the evaluation monad *)

(** [new Error(message)], and the [TypeError] of a property read on
    [undefined]. *)
Inductive exn :=
  | Error (message : string)
  | TypeError.

Inductive outcome (A : Type) :=
  | Return (a : A)
  | Throw (e : exn).
Arguments Return {A} a.
Arguments Throw {A} e.

(** A computation reads and extends the heap and returns or throws. *)
Definition M (A : Type) : Type := heap → outcome A * heap.

Global Instance M_ret : MRet M := λ A a h, (Return a, h).

Global Instance M_bind : MBind M := λ A B f m h,
  match m h with
  | (Return a, h') => f a h'
  | (Throw e, h') => (Throw e, h')
  end.

Definition throw {A} (e : exn) : M A := λ h, (Throw e, h).

(** An object literal: the finished object is stored at the next free
    reference. *)
Definition new_object (o : object) : M loc := λ h, (Return (length h), h ++ [o]).

(** ** Own property keys *)

Module Array.

(** [arr.at(i)]: the element at [i], counted from the end when [i] is
    negative, [undefined] when out of range. *)
Definition at_ {A} (arr : list A) (i : Z) : option A :=
  let k := if (i <? 0)%Z then (Z.of_nat (length arr) + i)%Z else i in
  if (k <? 0)%Z then None else arr !! Z.to_nat k.

End Array.

Module Object.

Definition digit (a : ascii) : option N :=
  let n := N_of_ascii a in
  if (48 <=? n)%N && (n <=? 57)%N then Some (n - 48)%N else None.

Fixpoint digits (s : string) (acc : N) : option N :=
  match s with
  | EmptyString => Some acc
  | String a s' =>
      match digit a with
      | Some d => digits s' (10 * acc + d)%N
      | None => None
      end
  end.

(** A property key is an array index when it is the canonical decimal
    numeral of an integer in [0, 2^32 - 2]. *)
Definition array_index (key : string) : option N :=
  match key with
  | EmptyString => None
  | String "0" EmptyString => Some 0%N
  | String "0" _ => None
  | _ =>
      match digits key 0 with
      | Some n => if (n <? 2 ^ 32 - 1)%N then Some n else None
      | None => None
      end
  end.

Definition is_array_index (key : string) : bool :=
  match array_index key with Some _ => true | None => false end.

Fixpoint insert_index (x : N * string) (l : list (N * string)) : list (N * string) :=
  match l with
  | [] => [x]
  | y :: l' => if (x.1 <=? y.1)%N then x :: l else y :: insert_index x l'
  end.

Definition sort_indices (l : list (N * string)) : list (N * string) :=
  foldr insert_index [] l.

Definition indexed (k : string) : option (N * string) :=
  match array_index k with Some n => Some (n, k) | None => None end.

(** OrdinaryOwnPropertyKeys on names: the array indices in ascending
    numeric order, then the other keys in creation order. *)
Definition own_property_keys (names : list string) : list string :=
  (sort_indices (omap indexed names)).*2
    ++ filter (λ k, is_array_index k = false) names.

(** [Object.keys(o)]. *)
Definition keys {A} (o : list (string * A)) : list string :=
  own_property_keys o.*1.

(** The own property [key] of [o], if it has one. *)
Fixpoint get {A} (o : list (string * A)) (key : string) : option A :=
  match o with
  | [] => None
  | (k, v) :: o' => if String.eqb k key then Some v else get o' key
  end.

End Object.

(** ** The generated document *)

(** typia's [IJsonSchemaCollection] as far as it is typed here: [components]
    is required, [components.schemas] is an optional record from schema
    names to schema bodies, and every body is an object. The code compares
    the record with [null] although its type only admits [undefined]. *)
Record IComponents := {
  schemas : nullable (list (string * loc))
}.

(** [collection] is the document's top-level [schemas] array, which the
    code does not read. *)
Record IJsonSchemaCollection := {
  version : string;
  components : IComponents;
  collection : list loc
}.

(** Params for [typiaJsonToOpenAIJsonSchema] and [typiaJsonToOpenAIResponse]:
    [strict?: boolean | null]. *)
Record TypiaJsonToOpenAIJsonSchemaParams := {
  jsonSchema : IJsonSchemaCollection;
  strict : nullable bool
}.

(** ** The two functions *)

(** [o.key] on an object: the own property, else [undefined]
    ([Object.prototype] has no property called [description]). *)
Definition read (o : object) (key : string) : value :=
  default VUndefined (Object.get o key).

(** [target.key] where [target] holds a reference or [undefined]: a
    [TypeError] on [undefined], else the read on the object referenced. A
    reference of a JavaScript value is that of an object of the heap; on a
    reference outside the heap the read finds no property. *)
Definition read_property (target : option loc) (key : string) : M value := λ h,
  match target with
  | None => (Throw TypeError, h)
  | Some l => (Return (read (h !!! l) key), h)
  end.

Definition typiaJsonToOpenAIJsonSchema (params : TypiaJsonToOpenAIJsonSchemaParams) : M loc :=
  let '{| jsonSchema := jsonSchema; strict := strict |} := params in
  let '{| schemas := schemas |} := components jsonSchema in
  match schemas with
  | Absent | IsNull => (* schemas == null *)
      throw (Error "json_schema.components.schemas is null")
  | Present schemas =>
      let name := Array.at_ (Object.keys schemas) 0 in
      match name with
      | None => (* name == null *)
          throw (Error "name is null")
      | Some name =>
          let targetSchema := Object.get schemas name in
          description ← read_property targetSchema "description";
          new_object [
            ("name", VString name);
            ("schema", ref_value targetSchema);
            ("description", description);
            ("strict", nullable_value VBoolean strict)
          ]
      end
  end.

Definition typiaJsonToOpenAIResponse (params : TypiaJsonToOpenAIJsonSchemaParams) : M loc :=
  json_schema ← typiaJsonToOpenAIJsonSchema params;
  new_object [
    ("type", VString "json_schema");
    ("json_schema", VRef json_schema)
  ].

(** The specification's names for the two errors. *)
Definition MissingSchemaMap : exn := Error "json_schema.components.schemas is null".
Definition NoSchemaFound : exn := Error "name is null".

(** ** Reading results *)

(** The object a call returned, if it returned. *)
Definition result_object (r : outcome loc * heap) : option object :=
  match r.1 with
  | Return l => r.2 !! l
  | Throw _ => None
  end.

(** Structural equality of two values in a heap, to a given depth: the same
    primitive or reference, or two objects with the same number of
    properties such that every property of the first is a property of the
    second with a structurally equal value. *)
Fixpoint deep_equal (fuel : nat) (h : heap) (v w : value) : bool :=
  value_eqb v w ||
  match fuel, v, w with
  | S n, VRef a, VRef b =>
      match h !! a, h !! b with
      | Some o1, Some o2 =>
          Nat.eqb (length o1) (length o2) &&
          forallb (λ p, match Object.get o2 p.1 with
                        | Some y => deep_equal n h p.2 y
                        | None => false
                        end) o1
      | _, _ => false
      end
  | _, _, _ => false
  end.

(** Two outcomes agree: the same exception, or structurally equal results. *)
Definition same_outcome (h : heap) (r1 r2 : outcome loc) : Prop :=
  match r1, r2 with
  | Return a, Return b => ∀ fuel, 2 ≤ fuel → deep_equal fuel h (VRef a) (VRef b) = true
  | Throw e1, Throw e2 => e1 = e2
  | _, _ => False
  end.

(** The schema bodies the document names are objects of the heap. *)
Definition allocated (h : heap) (params : TypiaJsonToOpenAIJsonSchemaParams) : Prop :=
  match schemas (components (jsonSchema params)) with
  | Present entries => Forall (λ e, e.2 < length h) entries
  | _ => True
  end.

(** A document with the given schema mapping. *)
Definition document (s : nullable (list (string * loc))) : IJsonSchemaCollection :=
  {| version := "3.1"; components := {| schemas := s |}; collection := [] |}.

(** The object literal of [typiaJsonToOpenAIJsonSchema], for the selected
    name, the reference and content of its body and the caller's flag. *)
Definition projected (name : string) (l : loc) (body : object) (s : nullable bool) : object :=
  [("name", VString name); ("schema", VRef l);
   ("description", read body "description");
   ("strict", nullable_value VBoolean s)].

(** The three ways a call of [typiaJsonToOpenAIJsonSchema] ends. *)
Inductive project_view (params : TypiaJsonToOpenAIJsonSchemaParams) (h : heap) :
    outcome loc * heap → Prop :=
  | view_missing :
      eq_null (schemas (components (jsonSchema params))) = true →
      project_view params h (Throw MissingSchemaMap, h)
  | view_empty :
      schemas (components (jsonSchema params)) = Present [] →
      project_view params h (Throw NoSchemaFound, h)
  | view_found entries name l :
      schemas (components (jsonSchema params)) = Present entries →
      entries ≠ [] →
      Array.at_ (Object.keys entries) 0 = Some name →
      Object.get entries name = Some l →
      project_view params h
        (Return (length h), h ++ [projected name l (h !!! l) (strict params)]).

(** A function of the parameters is pure when a call leaves every object of
    the heap as it was, and a later call on the same parameters, in any heap
    that extends the one the first call left, ends like the first: with the
    same exception, or with a structurally equal result. *)
Definition pure_function (f : TypiaJsonToOpenAIJsonSchemaParams → M loc) : Prop :=
  ∀ params h h',
    allocated h params →
    (f params h).2 `prefix_of` h' →
    h `prefix_of` (f params h).2 ∧
    same_outcome (f params h').2 (f params h).1 (f params h').1.

(** ** Example inputs *)

(** A heap with an empty [properties] object and the body of [Output]. *)
Definition output_heap : heap :=
  [ [];
    [("type", VString "object"); ("properties", VRef 0);
     ("description", VString "an output")] ].

Definition output_params : TypiaJsonToOpenAIJsonSchemaParams :=
  {| jsonSchema := document (Present [("Output", 1)]); strict := Present true |}.

(** Two bodies without a description. *)
Definition two_heap : heap :=
  [ [("type", VString "string")]; [("type", VString "number")] ].

Definition params_of (entries : list (string * loc)) (s : nullable bool) :
    TypiaJsonToOpenAIJsonSchemaParams :=
  {| jsonSchema := document (Present entries); strict := s |}.

(** A mapping with array indices among its keys, created in the order
    ["b"], ["10"], ["a"], ["9"], and a heap with its four bodies. *)
Definition mixed_entries : list (string * loc) :=
  [("b", 0); ("10", 1); ("a", 2); ("9", 3)].

Definition mixed_heap : heap :=
  [ [("type", VString "string")];
    [("type", VString "number"); ("description", VString "ten")];
    [("type", VString "boolean")];
    [("type", VString "integer"); ("description", VNull)] ].

(** ** Facts about own property keys *)

Section keys_facts.

Import Object.

Lemma at_0 {A} (l : list A) : Array.at_ l 0 = head l.
Proof. unfold Array.at_. simpl. by destruct l. Qed.

Lemma indexed_Some k p :
  indexed k = Some p ↔ p.2 = k ∧ array_index k = Some p.1.
Proof.
  unfold indexed. destruct (array_index k) as [n|]; destruct p as [m k']; simpl.
  - split; [intros [= <- <-]; done | intros [-> [= ->]]; done].
  - split; [done | intros [_ ?]; done].
Qed.

Lemma insert_index_perm x l : insert_index x l ≡ₚ x :: l.
Proof.
  induction l as [|y l IH]; simpl; [done|].
  destruct (x.1 <=? y.1)%N; [done|].
  rewrite IH. apply Permutation_swap.
Qed.

Lemma sort_indices_perm l : sort_indices l ≡ₚ l.
Proof.
  induction l as [|x l IH]; simpl; [done|].
  by rewrite insert_index_perm, IH.
Qed.

(** The head of the sorted indices is a least one. *)
Lemma sort_indices_head l y l' :
  sort_indices l = y :: l' → Forall (λ z, (y.1 ≤ z.1)%N) l.
Proof.
  revert y l'. induction l as [|x l IH]; intros y l' Hs; [done|].
  simpl in Hs. destruct (sort_indices l) as [|y0 t] eqn:Hl.
  - pose proof (sort_indices_perm l) as Hp. rewrite Hl in Hp.
    apply Permutation_length in Hp. destruct l; [|done].
    simpl in Hs. injection Hs as <- _. constructor; [lia | constructor].
  - specialize (IH _ _ eq_refl). simpl in Hs.
    destruct (x.1 <=? y0.1)%N eqn:Hle.
    + injection Hs as <- _. apply N.leb_le in Hle.
      constructor; [lia|]. eapply Forall_impl; [exact IH|]. simpl. lia.
    + injection Hs as <- _. apply N.leb_gt in Hle.
      constructor; [lia | done].
Qed.

Lemma omap_indexed_nil names :
  omap indexed names = [] → Forall (λ k, is_array_index k = false) names.
Proof.
  induction names as [|k names IH]; simpl; [constructor|].
  unfold indexed at 1. destruct (array_index k) eqn:E; [done|].
  intros H. constructor; [|exact (IH H)].
  unfold is_array_index. by rewrite E.
Qed.

Lemma omap_indexed_plain names :
  Forall (λ k, is_array_index k = false) names → omap indexed names = [].
Proof.
  induction 1 as [|k names Hk _ IH]; simpl; [done|].
  unfold indexed at 1. unfold is_array_index in Hk.
  by destruct (array_index k).
Qed.

Lemma filter_plain names :
  Forall (λ k, is_array_index k = false) names →
  filter (λ k, is_array_index k = false) names = names.
Proof.
  induction 1 as [|k names Hk _ IH]; [done|].
  rewrite filter_cons_True by done. by f_equal.
Qed.

(** Without array indices the keys come in creation order. *)
Lemma own_property_keys_plain names :
  Forall (λ k, is_array_index k = false) names → own_property_keys names = names.
Proof.
  intros H. unfold own_property_keys.
  by rewrite omap_indexed_plain, filter_plain.
Qed.

(** The keys are the names, rearranged. *)
Lemma own_property_keys_perm names : own_property_keys names ≡ₚ names.
Proof.
  unfold own_property_keys. rewrite sort_indices_perm.
  induction names as [|k names IH]; [done|].
  simpl. unfold indexed at 1.
  destruct (array_index k) as [n|] eqn:E.
  - rewrite filter_cons_False by (unfold is_array_index; by rewrite E).
    simpl. by rewrite IH.
  - rewrite filter_cons_True by (unfold is_array_index; by rewrite E).
    rewrite <- Permutation_middle. by rewrite IH.
Qed.

Lemma own_property_keys_nil names : own_property_keys names = [] ↔ names = [].
Proof.
  split; [|by intros ->].
  intros H. pose proof (own_property_keys_perm names) as Hp.
  rewrite H in Hp. apply Permutation_length in Hp. by destruct names.
Qed.

(** The first key: the least array index when there is one, else the
    first name created. *)
Lemma own_property_keys_head names name :
  head (own_property_keys names) = Some name →
  (∃ n, array_index name = Some n ∧ name ∈ names ∧
        ∀ k m, k ∈ names → array_index k = Some m → (n ≤ m)%N)
  ∨ (Forall (λ k, is_array_index k = false) names ∧ head names = Some name).
Proof.
  unfold own_property_keys.
  destruct (sort_indices (omap indexed names)) as [|[n k0] t] eqn:Hs.
  - intros H. right.
    pose proof (sort_indices_perm (omap indexed names)) as Hp.
    rewrite Hs in Hp. apply Permutation_length in Hp.
    destruct (omap indexed names) eqn:Ho; [|done].
    apply omap_indexed_nil in Ho. simpl in H.
    rewrite filter_plain in H by done. done.
  - simpl. intros [= <-]. left. exists n.
    assert ((n, k0) ∈ omap indexed names) as Hin.
    { rewrite <- (sort_indices_perm (omap indexed names)), Hs. left. }
    apply list_elem_of_omap in Hin as (k' & Hk' & Hi).
    apply indexed_Some in Hi as [<- Hi]. simpl in *.
    split; [done|]. split; [done|].
    intros k m Hk Hm.
    pose proof (sort_indices_head _ _ _ Hs) as Hmin.
    rewrite Forall_forall in Hmin. apply (Hmin (m, k)).
    apply list_elem_of_omap. exists k. split; [done|].
    apply indexed_Some. done.
Qed.

Lemma get_is_Some {A} (o : list (string * A)) key :
  key ∈ o.*1 → is_Some (get o key).
Proof.
  induction o as [|[k v] o IH]; simpl; [by intros ?%elem_of_nil|].
  destruct (String.eqb_spec k key) as [->|Hne]; [by eexists|].
  intros [?|?]%elem_of_cons; [done | auto].
Qed.

Lemma keys_head_get {A} (o : list (string * A)) name :
  Array.at_ (keys o) 0 = Some name → is_Some (get o name).
Proof.
  rewrite at_0. intros H. apply get_is_Some.
  rewrite <- (own_property_keys_perm o.*1).
  by apply head_Some_elem_of.
Qed.

Lemma keys_head_is_Some {A} (o : list (string * A)) :
  o ≠ [] → is_Some (Array.at_ (keys o) 0).
Proof.
  intros Ho. rewrite at_0. apply head_is_Some. unfold keys.
  rewrite own_property_keys_nil. by destruct o.
Qed.

End keys_facts.

(** ** Facts about the projection *)

Lemma project_cases params h :
  project_view params h (typiaJsonToOpenAIJsonSchema params h).
Proof.
  destruct params as [[ver [s] col] st]. unfold typiaJsonToOpenAIJsonSchema.
  destruct s as [| |entries]; [by apply view_missing.. |].
  destruct entries as [|e entries]; [by apply view_empty|].
  destruct (keys_head_is_Some (e :: entries)) as [name Hname]; [done|].
  destruct (keys_head_get _ _ Hname) as [l Hl].
  cbn [components jsonSchema schemas strict]. rewrite Hname, Hl.
  match goal with
  | |- project_view ?p _ _ =>
      exact (view_found p h (e :: entries) name l eq_refl ltac:(done) Hname Hl)
  end.
Qed.

Lemma response_unfold params h :
  typiaJsonToOpenAIResponse params h =
    match typiaJsonToOpenAIJsonSchema params h with
    | (Return r, h1) =>
        (Return (length h1),
         h1 ++ [[("type", VString "json_schema"); ("json_schema", VRef r)]])
    | (Throw e, h1) => (Throw e, h1)
    end.
Proof.
  unfold typiaJsonToOpenAIResponse, mbind, M_bind.
  by destruct (typiaJsonToOpenAIJsonSchema params h) as [[r|e] h1].
Qed.

Lemma get_elem_of {A} (o : list (string * A)) key v :
  Object.get o key = Some v → (key, v) ∈ o.
Proof.
  induction o as [|[k w] o IH]; simpl; [done|].
  destruct (String.eqb_spec k key) as [->|Hne].
  - intros [= ->]. left.
  - intros H. right. auto.
Qed.

Lemma value_eqb_refl v : value_eqb v v = true.
Proof.
  destruct v; simpl; auto using Z.eqb_refl, String.eqb_refl, Nat.eqb_refl.
  by destruct b.
Qed.

Lemma deep_equal_refl fuel h v : deep_equal fuel h v v = true.
Proof. destruct fuel; simpl; by rewrite value_eqb_refl. Qed.

(** Two references to objects with the same properties are structurally
    equal, here for the object literal of the projection. *)
Lemma deep_equal_projected fuel h a b name l body s :
  h !! a = Some (projected name l body s) →
  h !! b = Some (projected name l body s) →
  deep_equal (S fuel) h (VRef a) (VRef b) = true.
Proof.
  intros Ha Hb. cbn [deep_equal]. rewrite Ha, Hb. simpl.
  rewrite !deep_equal_refl. simpl. apply orb_true_r.
Qed.

(** ** Properties of the specification *)

Lemma errors_differ : MissingSchemaMap ≠ NoSchemaFound.
Proof. discriminate. Qed.

(** C1 (happy path). When the schema mapping is the single entry ["Output"]
    whose body carries the description ["an output"], and [strict] is
    [true], the call returns a new object
    [{ name: "Output", schema: <body>, description: "an output", strict: true }]
    whose [schema] property is the reference of the body itself: the body
    is still the same object of the heap and is not the object returned. *)
Theorem project_happy_path params h l body :
  schemas (components (jsonSchema params)) = Present [("Output", l)] →
  strict params = Present true →
  h !! l = Some body →
  Object.get body "description" = Some (VString "an output") →
  let r := typiaJsonToOpenAIJsonSchema params h in
  r = (Return (length h),
       h ++ [[("name", VString "Output"); ("schema", VRef l);
              ("description", VString "an output"); ("strict", VBoolean true)]])
  ∧ r.2 !! l = Some body
  ∧ l ≠ length h.
Proof.
  intros Hs Hst Hl Hd r. subst r.
  assert (l < length h) as Hlt by (by eapply lookup_lt_Some).
  destruct (project_cases params h) as [Hn | He | entries name l' Hs' Hne Hname Hget].
  - by rewrite Hs in Hn.
  - by rewrite Hs in He.
  - rewrite Hs in Hs'. injection Hs' as <-.
    vm_compute in Hname. injection Hname as <-.
    simpl in Hget. injection Hget as <-.
    rewrite (list_lookup_total_correct _ _ _ Hl).
    unfold projected, read. rewrite Hd, Hst. simpl.
    split; [done|]. split; [|lia].
    by apply lookup_app_l_Some.
Qed.

Lemma project_happy_path_witness :
  let r := typiaJsonToOpenAIJsonSchema output_params output_heap in
  r = (Return 2,
       output_heap ++ [[("name", VString "Output"); ("schema", VRef 1);
                        ("description", VString "an output"); ("strict", VBoolean true)]])
  ∧ r.2 !! 1 = output_heap !! 1
  ∧ 1 ≠ 2.
Proof.
  exact (project_happy_path output_params output_heap 1 _
           eq_refl eq_refl eq_refl eq_refl).
Defined.

(** C2 (first key wins, amended). With two or more entries the call
    succeeds, without any error, and the name of the result is the first
    key of [Object.keys]: the numerically least array index among the keys
    when some key is an array index, and otherwise the first key in
    insertion order. For the insertion order ["B"], ["A"] it is ["B"]. *)
Theorem project_first_key params h entries :
  schemas (components (jsonSchema params)) = Present entries →
  2 ≤ length entries →
  ∃ name o,
    typiaJsonToOpenAIJsonSchema params h = (Return (length h), h ++ [o]) ∧
    Object.get o "name" = Some (VString name) ∧
    head (Object.keys entries) = Some name ∧
    ((∃ n, Object.array_index name = Some n ∧ name ∈ entries.*1 ∧
           ∀ k m, k ∈ entries.*1 → Object.array_index k = Some m → (n ≤ m)%N)
     ∨ (Forall (λ k, Object.is_array_index k = false) entries.*1 ∧
        head entries.*1 = Some name)) ∧
    (entries.*1 = ["B"; "A"] → name = "B").
Proof.
  intros Hs Hlen.
  destruct (project_cases params h) as [Hn | He | entries' name l Hs' Hne Hname Hget].
  - by rewrite Hs in Hn.
  - rewrite Hs in He. injection He as ->. simpl in Hlen. lia.
  - rewrite Hs in Hs'. injection Hs' as <-.
    exists name, (projected name l (h !!! l) (strict params)).
    rewrite at_0 in Hname.
    split; [done|]. split; [done|]. split; [done|].
    split; [by apply own_property_keys_head|].
    intros HBA. unfold Object.keys in Hname. rewrite HBA in Hname.
    vm_compute in Hname. by injection Hname as <-.
Qed.

Lemma project_first_key_witness :
  ∃ name o,
    typiaJsonToOpenAIJsonSchema (params_of [("B", 0); ("A", 1)] Absent) two_heap
      = (Return 2, two_heap ++ [o]) ∧
    Object.get o "name" = Some (VString name) ∧
    head (Object.keys [("B", 0); ("A", 1)]) = Some name ∧
    ((∃ n, Object.array_index name = Some n ∧ name ∈ ["B"; "A"] ∧
           ∀ k m, k ∈ ["B"; "A"] → Object.array_index k = Some m → (n ≤ m)%N)
     ∨ (Forall (λ k, Object.is_array_index k = false) ["B"; "A"] ∧
        head ["B"; "A"] = Some name)) ∧
    (["B"; "A"] = ["B"; "A"] → name = "B").
Proof.
  apply (project_first_key (params_of [("B", 0); ("A", 1)] Absent) two_heap
           [("B", 0); ("A", 1)]); [reflexivity | simpl; lia].
Defined.

(** C2 as stated fails: for the insertion order ["2"], ["1"] the first
    inserted key is ["2"], and the name selected is ["1"]. *)
Lemma project_insertion_order_counterexample :
  let entries := [("2", 0); ("1", 1)] in
  head entries.*1 = Some "2" ∧
  result_object (typiaJsonToOpenAIJsonSchema (params_of entries Absent) two_heap)
    = Some [("name", VString "1"); ("schema", VRef 1);
            ("description", VUndefined); ("strict", VUndefined)] ∧
  VString "1" ≠ VString "2".
Proof. split; [reflexivity|]. split; [reflexivity | discriminate]. Qed.

(** C3 (missing map). The call throws the error "schemas is null" exactly
    when [components.schemas] is [undefined] or [null]; it then returns
    nothing and leaves the heap as it was. *)
Theorem project_missing_schema_map params h :
  ((typiaJsonToOpenAIJsonSchema params h).1 = Throw MissingSchemaMap ↔
     schemas (components (jsonSchema params)) = Absent ∨
     schemas (components (jsonSchema params)) = IsNull)
  ∧ ((typiaJsonToOpenAIJsonSchema params h).1 = Throw MissingSchemaMap ↔
       typiaJsonToOpenAIJsonSchema params h = (Throw MissingSchemaMap, h))
  ∧ ((typiaJsonToOpenAIJsonSchema params h).1 = Throw MissingSchemaMap →
       result_object (typiaJsonToOpenAIJsonSchema params h) = None).
Proof.
  destruct (project_cases params h) as [Hn | He | entries name l Hs Hne Hname Hget];
    simpl.
  - split; [|done]. split; [|done]. intros _.
    destruct (schemas (components (jsonSchema params))); auto. done.
  - split; [|split].
    + split; [intros [= E]; by destruct errors_differ|].
      rewrite He. by intros [|].
    + split; [intros [= E]; by destruct errors_differ | by intros [= E _]].
    + done.
  - split; [|split]; [split | split |]; try done.
    rewrite Hs. by intros [|].
Qed.

(** C4 (empty map, totality). The call throws the error "name is null"
    exactly when [components.schemas] is a record without entries, leaving
    the heap as it was; with at least one entry it returns a new object;
    and no exception other than these two is ever thrown. *)
Theorem project_no_schema_found params h :
  ((typiaJsonToOpenAIJsonSchema params h).1 = Throw NoSchemaFound ↔
     schemas (components (jsonSchema params)) = Present [])
  ∧ ((typiaJsonToOpenAIJsonSchema params h).1 = Throw NoSchemaFound ↔
       typiaJsonToOpenAIJsonSchema params h = (Throw NoSchemaFound, h))
  ∧ (∀ entries,
       schemas (components (jsonSchema params)) = Present entries →
       1 ≤ length (Object.keys entries) →
       ∃ o, typiaJsonToOpenAIJsonSchema params h = (Return (length h), h ++ [o]))
  ∧ (∀ e, (typiaJsonToOpenAIJsonSchema params h).1 = Throw e →
          e = MissingSchemaMap ∨ e = NoSchemaFound).
Proof.
  destruct (project_cases params h) as [Hn | He | entries name l Hs Hne Hname Hget];
    simpl.
  - split; [|split; [|split]].
    + split; [intros [= E]; by destruct errors_differ|].
      intros E. by rewrite E in Hn.
    + split; [intros [= E]; by destruct errors_differ | by intros [= E _]].
    + intros entries E. by rewrite E in Hn.
    + intros e [= <-]. by left.
  - split; [|split; [|split]]; [done | done | |].
    + intros entries E. rewrite He in E. injection E as <-. simpl. lia.
    + intros e [= <-]. by right.
  - split; [|split; [|split]]; [split | split | |]; try done.
    + rewrite Hs. intros [= ->]. done.
    + intros entries' E _. by eexists.
Qed.

Lemma project_no_schema_found_witness :
  ∃ o, typiaJsonToOpenAIJsonSchema output_params output_heap
         = (Return (length output_heap), output_heap ++ [o]).
Proof.
  apply (proj1 (proj2 (proj2 (project_no_schema_found output_params output_heap)))
           [("Output", 1)]); [reflexivity | simpl; lia].
Defined.

(** A call that returned: what it returned. *)
Lemma project_result params h o :
  result_object (typiaJsonToOpenAIJsonSchema params h) = Some o →
  ∃ entries name l,
    schemas (components (jsonSchema params)) = Present entries ∧
    Array.at_ (Object.keys entries) 0 = Some name ∧
    Object.get entries name = Some l ∧
    typiaJsonToOpenAIJsonSchema params h = (Return (length h), h ++ [o]) ∧
    o = projected name l (h !!! l) (strict params).
Proof.
  unfold result_object.
  destruct (project_cases params h) as [Hn | He | entries name l Hs Hne Hname Hget];
    simpl; [done | done |].
  rewrite lookup_app_r by lia. rewrite Nat.sub_diag. simpl. intros [= <-].
  by exists entries, name, l.
Qed.

Lemma result_object_alloc h o : result_object (Return (length h), h ++ [o]) = Some o.
Proof.
  unfold result_object. simpl. rewrite lookup_app_r by lia.
  by rewrite Nat.sub_diag.
Qed.

(** C5 (envelope, amended). When [typiaJsonToOpenAIJsonSchema] returns the
    reference [r], [typiaJsonToOpenAIResponse] returns a new object
    [{ type: "json_schema", json_schema: r }]: the discriminator is under
    the key [type], and [json_schema] holds the very reference of the
    projected schema, whose object is unchanged. *)
Theorem response_envelope params h r h1 :
  typiaJsonToOpenAIJsonSchema params h = (Return r, h1) →
  let e := typiaJsonToOpenAIResponse params h in
  e = (Return (length h1),
       h1 ++ [[("type", VString "json_schema"); ("json_schema", VRef r)]])
  ∧ result_object e = Some [("type", VString "json_schema"); ("json_schema", VRef r)]
  ∧ e.2 !! r = h1 !! r
  ∧ is_Some (h1 !! r).
Proof.
  intros H e. subst e. rewrite response_unfold, H.
  rewrite result_object_alloc.
  assert (is_Some (h1 !! r)) as Hr.
  { destruct (project_cases params h) as [| |entries name l Hs Hne Hname Hget];
      [done.. |].
    injection H as <- <-. apply lookup_lt_is_Some. rewrite length_app. simpl. lia. }
  split; [done|]. split; [done|]. split; [|done].
  simpl. destruct Hr as [o Ho]. rewrite Ho. by apply lookup_app_l_Some.
Qed.

Lemma response_envelope_witness :
  let e := typiaJsonToOpenAIResponse output_params output_heap in
  let h1 := (typiaJsonToOpenAIJsonSchema output_params output_heap).2 in
  e = (Return 3, h1 ++ [[("type", VString "json_schema"); ("json_schema", VRef 2)]])
  ∧ result_object e = Some [("type", VString "json_schema"); ("json_schema", VRef 2)]
  ∧ e.2 !! 2 = h1 !! 2
  ∧ is_Some (h1 !! 2).
Proof.
  exact (response_envelope output_params output_heap 2 _ eq_refl).
Defined.

(** C5 as stated fails: on the happy-path input the envelope has the own
    keys [type] and [json_schema] and no property [kind]. *)
Lemma response_kind_counterexample :
  let o := [("type", VString "json_schema"); ("json_schema", VRef 2)] in
  result_object (typiaJsonToOpenAIResponse output_params output_heap) = Some o ∧
  Object.keys o = ["type"; "json_schema"] ∧
  Object.get o "kind" = None ∧
  read o "kind" ≠ VString "json_schema".
Proof. repeat split; try reflexivity. discriminate. Qed.

(** C6 (failure passthrough). [typiaJsonToOpenAIResponse] throws an
    exception exactly when [typiaJsonToOpenAIJsonSchema] throws it on the
    same input, with the same heap: the "schemas is null" error on an
    [undefined] or [null] mapping and the "name is null" error on an empty
    one. *)
Theorem response_propagates_failure params h :
  (∀ e h', typiaJsonToOpenAIResponse params h = (Throw e, h') ↔
           typiaJsonToOpenAIJsonSchema params h = (Throw e, h'))
  ∧ (eq_null (schemas (components (jsonSchema params))) = true ↔
       typiaJsonToOpenAIResponse params h = (Throw MissingSchemaMap, h))
  ∧ (schemas (components (jsonSchema params)) = Present [] ↔
       typiaJsonToOpenAIResponse params h = (Throw NoSchemaFound, h)).
Proof.
  rewrite response_unfold.
  destruct (project_cases params h) as [Hn | He | entries name l Hs Hne Hname Hget].
  - split; [done|]. split; [done|].
    split; [intros E; by rewrite E in Hn | intros [= E]; by destruct errors_differ].
  - split; [done|]. split; [|done].
    rewrite He. simpl. split; [done | intros [= E]; by destruct errors_differ].
  - split; [done|]. rewrite Hs. simpl. split; [done|]. split; [|done].
    intros [= ->]. done.
Qed.

(** C7 (strict verbatim). The [strict] property of the result is the
    caller's flag as it was passed, and the results of two calls have the
    same [strict] only if the flags were the same: [true], [false], [null]
    and absent stay four different values. *)
Theorem project_strict_verbatim params h o :
  result_object (typiaJsonToOpenAIJsonSchema params h) = Some o →
  Object.get o "strict" = Some (nullable_value VBoolean (strict params))
  ∧ (∀ params' h' o',
       result_object (typiaJsonToOpenAIJsonSchema params' h') = Some o' →
       Object.get o' "strict" = Object.get o "strict" →
       strict params' = strict params)
  ∧ (∀ s s' : nullable bool,
       nullable_value VBoolean s = nullable_value VBoolean s' → s = s').
Proof.
  intros (entries & name & l & _ & _ & _ & _ & ->)%project_result.
  assert (∀ s s' : nullable bool,
            nullable_value VBoolean s = nullable_value VBoolean s' → s = s') as Hinj.
  { intros [| |b] [| |b']; simpl; congruence. }
  split; [done|]. split; [|done].
  intros params' h' o' (? & ? & ? & _ & _ & _ & _ & ->)%project_result.
  simpl. intros [= E]. by apply Hinj.
Qed.

Lemma project_strict_verbatim_witness :
  Object.get (projected "B" 0 [("type", VString "string")] IsNull) "strict"
    = Some (nullable_value VBoolean IsNull)
  ∧ (∀ params' h' o',
       result_object (typiaJsonToOpenAIJsonSchema params' h') = Some o' →
       Object.get o' "strict"
         = Object.get (projected "B" 0 [("type", VString "string")] IsNull) "strict" →
       strict params' = IsNull)
  ∧ (∀ s s' : nullable bool,
       nullable_value VBoolean s = nullable_value VBoolean s' → s = s').
Proof.
  exact (project_strict_verbatim (params_of [("B", 0); ("A", 1)] IsNull) two_heap _
           eq_refl).
Defined.

(** C8 (no description). When the body selected, the one under the first
    key of the mapping, has no own property [description], the call
    succeeds and reading [description] on the result gives [undefined]:
    not the empty string, and not [null]. *)
Theorem project_description_absent params h entries name l body :
  schemas (components (jsonSchema params)) = Present entries →
  Array.at_ (Object.keys entries) 0 = Some name →
  Object.get entries name = Some l →
  h !! l = Some body →
  Object.get body "description" = None →
  ∃ o, result_object (typiaJsonToOpenAIJsonSchema params h) = Some o ∧
       read o "description" = VUndefined ∧
       read o "description" ≠ VString "" ∧
       read o "description" ≠ VNull.
Proof.
  intros Hs Hname Hget Hl Hd.
  destruct (project_cases params h) as [Hn | He | entries' name' l' Hs' Hne Hn' Hg'].
  - by rewrite Hs in Hn.
  - rewrite Hs in He. injection He as ->. done.
  - rewrite Hs in Hs'. injection Hs' as <-.
    rewrite Hname in Hn'. injection Hn' as <-.
    rewrite Hget in Hg'. injection Hg' as <-.
    eexists. split; [apply result_object_alloc|].
    rewrite (list_lookup_total_correct _ _ _ Hl).
    unfold projected, read at 2 4 6. rewrite Hd. simpl. done.
Qed.

Lemma project_description_absent_witness :
  ∃ o, result_object
         (typiaJsonToOpenAIJsonSchema (params_of [("B", 0); ("A", 1)] Absent) two_heap)
         = Some o ∧
       read o "description" = VUndefined ∧
       read o "description" ≠ VString "" ∧
       read o "description" ≠ VNull.
Proof.
  exact (project_description_absent (params_of [("B", 0); ("A", 1)] Absent) two_heap
           [("B", 0); ("A", 1)] "B" 0 [("type", VString "string")]
           eq_refl eq_refl eq_refl eq_refl eq_refl).
Defined.

(** C10 (keys always present). The object returned always has the four own
    keys [name], [schema], [description] and [strict]: when the caller
    omitted the flag, [strict] is present and bound to [undefined], and
    when the body referenced by [schema] has no [description], the key
    [description] is present and bound to [undefined]. *)
Theorem project_keys_always_present params h o :
  result_object (typiaJsonToOpenAIJsonSchema params h) = Some o →
  Object.keys o = ["name"; "schema"; "description"; "strict"]
  ∧ is_Some (Object.get o "description")
  ∧ is_Some (Object.get o "strict")
  ∧ (strict params = Absent → Object.get o "strict" = Some VUndefined)
  ∧ (∀ l body,
       Object.get o "schema" = Some (VRef l) →
       h !! l = Some body →
       Object.get body "description" = None →
       Object.get o "description" = Some VUndefined).
Proof.
  intros (entries & name & l & _ & _ & _ & _ & ->)%project_result.
  split; [reflexivity|]. split; [by eexists|]. split; [by eexists|].
  split; [by intros ->|].
  intros l' body [= <-] Hl Hd. simpl.
  rewrite (list_lookup_total_correct _ _ _ Hl). unfold read. by rewrite Hd.
Qed.

Lemma project_keys_always_present_witness :
  let o := projected "B" 0 [("type", VString "string")] Absent in
  Object.keys o = ["name"; "schema"; "description"; "strict"]
  ∧ is_Some (Object.get o "description")
  ∧ is_Some (Object.get o "strict")
  ∧ (@Absent bool = Absent → Object.get o "strict" = Some VUndefined)
  ∧ (∀ l body,
       Object.get o "schema" = Some (VRef l) →
       two_heap !! l = Some body →
       Object.get body "description" = None →
       Object.get o "description" = Some VUndefined).
Proof.
  exact (project_keys_always_present (params_of [("B", 0); ("A", 1)] Absent) two_heap _
           eq_refl).
Defined.

Lemma project_eq params h :
  typiaJsonToOpenAIJsonSchema params h =
    match schemas (components (jsonSchema params)) with
    | Absent | IsNull => (Throw MissingSchemaMap, h)
    | Present entries =>
        match Array.at_ (Object.keys entries) 0 with
        | None => (Throw NoSchemaFound, h)
        | Some name =>
            match Object.get entries name with
            | Some l =>
                (Return (length h), h ++ [projected name l (h !!! l) (strict params)])
            | None => (Throw TypeError, h)
            end
        end
    end.
Proof.
  destruct params as [[ver [s] col] st]. unfold typiaJsonToOpenAIJsonSchema.
  cbn [components jsonSchema schemas strict].
  destruct s as [| |entries]; [done.. |].
  destruct (Array.at_ (Object.keys entries) 0) as [name|]; [|done].
  by destruct (Object.get entries name).
Qed.

Lemma deep_equal_envelope fuel h a b r1 r2 :
  h !! a = Some [("type", VString "json_schema"); ("json_schema", VRef r1)] →
  h !! b = Some [("type", VString "json_schema"); ("json_schema", VRef r2)] →
  deep_equal fuel h (VRef r1) (VRef r2) = true →
  deep_equal (S fuel) h (VRef a) (VRef b) = true.
Proof.
  intros Ha Hb Hr. cbn [deep_equal]. rewrite Ha, Hb.
  cbn [length forallb Object.get fst snd].
  change ("type" =? "type")%string with true.
  change ("type" =? "json_schema")%string with false.
  change ("json_schema" =? "json_schema")%string with true.
  cbv iota. rewrite Hr, deep_equal_refl. simpl. apply orb_true_r.
Qed.

Lemma allocated_get h params entries name l :
  allocated h params →
  schemas (components (jsonSchema params)) = Present entries →
  Object.get entries name = Some l →
  l < length h.
Proof.
  unfold allocated. intros Ha Hs Hg. rewrite Hs in Ha.
  rewrite Forall_forall in Ha. by apply (Ha (name, l)), get_elem_of.
Qed.

Lemma project_pure : pure_function typiaJsonToOpenAIJsonSchema.
Proof.
  intros params h h' Ha. rewrite !project_eq.
  destruct (schemas (components (jsonSchema params))) as [| |entries] eqn:Hs;
    [by split; [|done].. |].
  destruct (Array.at_ (Object.keys entries) 0) as [name|]; [|by split; [|done]].
  destruct (Object.get entries name) as [l|] eqn:Hg; [|by split; [|done]].
  pose proof (allocated_get _ _ _ _ _ Ha Hs Hg) as Hl.
  simpl. intros [k ->]. split; [by apply prefix_app_r|].
  intros [|fuel] Hfuel; [lia|].
  assert (((h ++ [projected name l (h !!! l) (strict params)]) ++ k) !!! l = h !!! l)
    as ->.
  { rewrite lookup_total_app_l by (rewrite length_app; lia).
    by rewrite lookup_total_app_l. }
  eapply deep_equal_projected.
  - rewrite <- !(assoc_L (++)). by apply list_lookup_middle.
  - by apply list_lookup_middle.
Qed.

Lemma lookup_prefix_alloc {A} (h k : list A) o :
  h ++ [o] `prefix_of` k → k !! length h = Some o.
Proof.
  intros [k' ->]. rewrite <- (assoc_L (++)). by apply list_lookup_middle.
Qed.

Lemma response_pure : pure_function typiaJsonToOpenAIResponse.
Proof.
  intros params h h' Ha. rewrite !response_unfold, !project_eq.
  destruct (schemas (components (jsonSchema params))) as [| |entries] eqn:Hs;
    [by split; [|done].. |].
  destruct (Array.at_ (Object.keys entries) 0) as [name|]; [|by split; [|done]].
  destruct (Object.get entries name) as [l|] eqn:Hg; [|by split; [|done]].
  pose proof (allocated_get _ _ _ _ _ Ha Hs Hg) as Hl.
  simpl. intros Hp.
  split; [by apply prefix_app_r, prefix_app_r|].
  assert (h' !!! l = h !!! l) as ->.
  { destruct Hp as [k ->].
    rewrite (lookup_total_app_l _ k) by (rewrite !length_app; simpl; lia).
    rewrite lookup_total_app_l by (rewrite length_app; simpl; lia).
    by rewrite lookup_total_app_l. }
  set (p := projected name l (h !!! l) (strict params)) in *.
  intros [|[|fuel]] Hfuel; [lia | lia |].
  eapply deep_equal_envelope.
  - apply lookup_prefix_alloc. etrans; [exact Hp|].
    by apply prefix_app_r, prefix_app_r.
  - by apply list_lookup_middle.
  - apply (deep_equal_projected _ _ _ _ name l (h !!! l) (strict params)); fold p.
    + apply lookup_prefix_alloc.
      etrans; [|apply prefix_app_r, prefix_app_r; exact Hp].
      by apply prefix_app_r.
    + apply lookup_prefix_alloc. by apply prefix_app_r.
Qed.

(** C9 (determinism). Both functions are pure: a call changes no object of
    the heap, and calling again on the same parameters, with the objects of
    the input untouched, throws the same exception or returns a result
    structurally equal to the first. *)
Theorem project_deterministic :
  pure_function typiaJsonToOpenAIJsonSchema ∧
  pure_function typiaJsonToOpenAIResponse.
Proof. split; [exact project_pure | exact response_pure]. Qed.

Lemma project_deterministic_witness :
  let first := typiaJsonToOpenAIJsonSchema output_params output_heap in
  let again := typiaJsonToOpenAIJsonSchema output_params first.2 in
  output_heap `prefix_of` first.2 ∧
  same_outcome again.2 first.1 again.1.
Proof.
  refine (proj1 project_deterministic output_params output_heap _ _ _).
  - repeat constructor.
  - reflexivity.
Defined.

(** ** Further properties *)

(** The result in general: for a mapping whose first key is [name], stored
    with the body reference [l], the call returns a new object with the
    name, that reference, the [description] read on the body and the
    caller's flag. *)
Theorem project_general params h entries name l :
  schemas (components (jsonSchema params)) = Present entries →
  Array.at_ (Object.keys entries) 0 = Some name →
  Object.get entries name = Some l →
  typiaJsonToOpenAIJsonSchema params h =
    (Return (length h),
     h ++ [[("name", VString name); ("schema", VRef l);
            ("description", read (h !!! l) "description");
            ("strict", nullable_value VBoolean (strict params))]]).
Proof. intros Hs Hname Hget. by rewrite project_eq, Hs, Hname, Hget. Qed.

Lemma project_general_witness :
  typiaJsonToOpenAIJsonSchema (params_of [("B", 0); ("A", 1)] (Present false)) two_heap =
    (Return 2,
     two_heap ++ [[("name", VString "B"); ("schema", VRef 0);
                   ("description", VUndefined); ("strict", VBoolean false)]]).
Proof.
  exact (project_general (params_of [("B", 0); ("A", 1)] (Present false)) two_heap
           [("B", 0); ("A", 1)] "B" 0 eq_refl eq_refl eq_refl).
Defined.


(** [Object.keys] rearranges the keys created, and keeps their order when
    none of them is an array index. *)
Theorem keys_order {A} (o : list (string * A)) :
  Object.keys o ≡ₚ o.*1
  ∧ (Forall (λ k, Object.is_array_index k = false) o.*1 → Object.keys o = o.*1).
Proof.
  split; [apply own_property_keys_perm | apply own_property_keys_plain].
Qed.

(** ** The order of the keys *)

Lemma insert_index_sorted x l :
  StronglySorted (λ p q : N * string, (p.1 ≤ q.1)%N) l →
  StronglySorted (λ p q : N * string, (p.1 ≤ q.1)%N) (Object.insert_index x l).
Proof.
  induction 1 as [|y l Hl IH Hy]; simpl.
  - repeat constructor.
  - destruct (x.1 <=? y.1)%N eqn:Hle.
    + apply N.leb_le in Hle. constructor; [by constructor|].
      constructor; [done|]. eapply Forall_impl; [exact Hy|]. simpl. lia.
    + apply N.leb_gt in Hle. constructor; [done|].
      rewrite insert_index_perm. constructor; [lia | done].
Qed.

Lemma sort_indices_sorted l :
  StronglySorted (λ p q : N * string, (p.1 ≤ q.1)%N) (Object.sort_indices l).
Proof.
  induction l as [|x l IH]; simpl; [constructor|]. by apply insert_index_sorted.
Qed.

Lemma StronglySorted_lookup {A} (R : A → A → Prop) l i j x y :
  StronglySorted R l → i < j → l !! i = Some x → l !! j = Some y → R x y.
Proof.
  intros Hl. revert i j. induction Hl as [|z l Hl IH Hz]; intros i j Hij Hi Hj.
  - done.
  - destruct j as [|j]; [lia|]. simpl in Hj. destruct i as [|i]; simpl in Hi.
    + injection Hi as <-. rewrite Forall_forall in Hz.
      by eapply Hz, list_elem_of_lookup_2.
    + apply (IH i j); [lia | done | done].
Qed.

Lemma sorted_indices_spec names p :
  p ∈ Object.sort_indices (omap Object.indexed names) →
  p.2 ∈ names ∧ Object.array_index p.2 = Some p.1.
Proof.
  rewrite sort_indices_perm. intros (k & Hk & Hi)%list_elem_of_omap.
  apply indexed_Some in Hi as [-> Hi]. done.
Qed.

Lemma filter_indices_nil (idx : list (N * string)) :
  Forall (λ p, Object.array_index p.2 = Some p.1) idx →
  filter (λ k, Object.is_array_index k = false) idx.*2 = [].
Proof.
  induction 1 as [|p idx Hp _ IH]; [done|]. simpl.
  rewrite filter_cons_False; [done|].
  unfold Object.is_array_index. by rewrite Hp.
Qed.

(** X4 (the order of [Object.keys]). Whenever a key that is an array index
    comes after another key, that other key is an array index too, with a
    numeric value that is not larger; and the keys that are not array
    indices come in the order in which they were created. *)
Theorem keys_indices_first {A} (o : list (string * A)) :
  (∀ i j a b,
     i < j →
     Object.keys o !! i = Some a →
     Object.keys o !! j = Some b →
     Object.is_array_index b = true →
     ∃ n m, Object.array_index a = Some n ∧ Object.array_index b = Some m ∧
            (n ≤ m)%N)
  ∧ filter (λ k, Object.is_array_index k = false) (Object.keys o)
      = filter (λ k, Object.is_array_index k = false) o.*1.
Proof.
  unfold Object.keys, Object.own_property_keys.
  set (S := Object.sort_indices (omap Object.indexed o.*1)).
  set (R := filter (λ k, Object.is_array_index k = false) o.*1).
  assert (Forall (λ p, Object.array_index p.2 = Some p.1) S) as HS.
  { apply Forall_forall. intros p Hp. by apply sorted_indices_spec in Hp as [_ ?]. }
  assert (Forall (λ k, Object.is_array_index k = false) R) as HR.
  { apply Forall_forall. by intros k [? _]%list_elem_of_filter. }
  split.
  - intros i j a b Hij Hi Hj Hb.
    apply lookup_app_Some in Hj as [Hj | [_ Hj]].
    + assert (j < length S.*2) as Hlen by (by eapply lookup_lt_Some).
      rewrite lookup_app_l in Hi by lia.
      apply list_lookup_fmap_Some in Hi as (pa & -> & Hi).
      apply list_lookup_fmap_Some in Hj as (pb & -> & Hj).
      exists pa.1, pb.1. rewrite Forall_forall in HS.
      split; [by eapply HS, list_elem_of_lookup_2|].
      split; [by eapply HS, list_elem_of_lookup_2|].
      exact (StronglySorted_lookup _ _ _ _ _ _
               (sort_indices_sorted _) Hij Hi Hj).
    + apply list_elem_of_lookup_2 in Hj. rewrite Forall_forall in HR.
      apply HR in Hj. congruence.
  - rewrite filter_app, (filter_indices_nil S HS). simpl.
    by apply filter_plain.
Qed.

Lemma keys_indices_first_witness :
  ∃ n m, Object.array_index "9" = Some n ∧ Object.array_index "10" = Some m ∧
         (n ≤ m)%N.
Proof.
  exact (proj1 (keys_indices_first mixed_entries) 0 1 "9" "10"
           ltac:(lia) eq_refl eq_refl eq_refl).
Defined.

(** ** Further properties of the two functions *)

Lemma own_property_keys_singleton name : Object.own_property_keys [name] = [name].
Proof.
  unfold Object.own_property_keys. simpl. unfold Object.indexed.
  destruct (Object.array_index name) as [n|] eqn:E.
  - rewrite filter_cons_False by (unfold Object.is_array_index; by rewrite E).
    done.
  - rewrite filter_cons_True by (unfold Object.is_array_index; by rewrite E).
    done.
Qed.

(** X5 (only the selected entry matters). The result on a mapping is the
    result on the mapping reduced to the entry selected, whatever the other
    entries, the [version] and the top-level [schemas] array of the
    document are. *)
Theorem project_only_selected_entry params h entries name l :
  schemas (components (jsonSchema params)) = Present entries →
  Array.at_ (Object.keys entries) 0 = Some name →
  Object.get entries name = Some l →
  typiaJsonToOpenAIJsonSchema params h
    = typiaJsonToOpenAIJsonSchema (params_of [(name, l)] (strict params)) h
  ∧ typiaJsonToOpenAIResponse params h
    = typiaJsonToOpenAIResponse (params_of [(name, l)] (strict params)) h.
Proof.
  intros Hs Hname Hget.
  assert (typiaJsonToOpenAIJsonSchema params h
          = typiaJsonToOpenAIJsonSchema (params_of [(name, l)] (strict params)) h)
    as Heq.
  { rewrite !project_eq, Hs, Hname, Hget. simpl.
    rewrite at_0. unfold Object.keys. simpl.
    rewrite own_property_keys_singleton. simpl. by rewrite String.eqb_refl. }
  split; [done|]. by rewrite !response_unfold, Heq.
Qed.

Lemma project_only_selected_entry_witness :
  typiaJsonToOpenAIJsonSchema (params_of mixed_entries IsNull) mixed_heap
    = typiaJsonToOpenAIJsonSchema (params_of [("9", 3)] IsNull) mixed_heap
  ∧ typiaJsonToOpenAIResponse (params_of mixed_entries IsNull) mixed_heap
    = typiaJsonToOpenAIResponse (params_of [("9", 3)] IsNull) mixed_heap.
Proof.
  exact (project_only_selected_entry (params_of mixed_entries IsNull) mixed_heap
           mixed_entries "9" 3 eq_refl eq_refl eq_refl).
Defined.

(** X6 (the result belongs to the document). The object returned names an
    entry of the mapping: [name] is one of its keys, [schema] is the
    reference stored under that key, the body it designates is the same
    object after the call, and [description] is what that body holds under
    [description], whatever kind of value it is. *)
Theorem project_result_in_document params h o :
  result_object (typiaJsonToOpenAIJsonSchema params h) = Some o →
  ∃ entries name l,
    schemas (components (jsonSchema params)) = Present entries ∧
    (name, l) ∈ entries ∧
    Object.get o "name" = Some (VString name) ∧
    Object.get o "schema" = Some (VRef l) ∧
    ∀ body, h !! l = Some body →
            (typiaJsonToOpenAIJsonSchema params h).2 !! l = Some body ∧
            Object.get o "description" = Some (read body "description").
Proof.
  intros (entries & name & l & Hs & Hname & Hget & Heq & ->)%project_result.
  exists entries, name, l. split; [done|].
  split; [by apply get_elem_of|]. split; [done|]. split; [done|].
  intros body Hl. rewrite Heq. simpl.
  split; [by apply lookup_app_l_Some|].
  by rewrite (list_lookup_total_correct _ _ _ Hl).
Qed.

Lemma project_result_in_document_witness :
  ∃ entries name l,
    schemas (components (jsonSchema (params_of mixed_entries IsNull)))
      = Present entries ∧
    (name, l) ∈ entries ∧
    Object.get (projected "9" 3 [("type", VString "integer"); ("description", VNull)]
                  IsNull) "name" = Some (VString name) ∧
    Object.get (projected "9" 3 [("type", VString "integer"); ("description", VNull)]
                  IsNull) "schema" = Some (VRef l) ∧
    ∀ body, mixed_heap !! l = Some body →
            (typiaJsonToOpenAIJsonSchema (params_of mixed_entries IsNull) mixed_heap).2
              !! l = Some body ∧
            Object.get (projected "9" 3
                          [("type", VString "integer"); ("description", VNull)] IsNull)
              "description" = Some (read body "description").
Proof.
  exact (project_result_in_document (params_of mixed_entries IsNull) mixed_heap _
           eq_refl).
Defined.

(** X7 (a new object at every call). Two calls in a row on the same
    parameters return two different objects, neither of which existed
    before the first call; the second call leaves the first result as it
    was. *)
Theorem project_results_distinct params h r1 h1 r2 h2 :
  typiaJsonToOpenAIJsonSchema params h = (Return r1, h1) →
  typiaJsonToOpenAIJsonSchema params h1 = (Return r2, h2) →
  r1 ≠ r2
  ∧ (∀ l, l < length h → r1 ≠ l ∧ r2 ≠ l)
  ∧ is_Some (h1 !! r1)
  ∧ h2 !! r1 = h1 !! r1.
Proof.
  rewrite !project_eq.
  destruct (schemas (components (jsonSchema params))) as [| |entries]; [done.. |].
  destruct (Array.at_ (Object.keys entries) 0) as [name|]; [|done].
  destruct (Object.get entries name) as [l|]; [|done].
  intros [= <- <-] [= <- <-]. rewrite length_app. simpl.
  split; [lia|]. split; [intros; lia|].
  assert ((h ++ [projected name l (h !!! l) (strict params)]) !! length h
          = Some (projected name l (h !!! l) (strict params))) as Hr
    by (by apply list_lookup_middle).
  split; [by eexists|]. rewrite Hr. by apply lookup_app_l_Some.
Qed.

Lemma project_results_distinct_witness :
  2 ≠ 3
  ∧ (∀ l, l < length output_heap → 2 ≠ l ∧ 3 ≠ l)
  ∧ is_Some ((typiaJsonToOpenAIJsonSchema output_params output_heap).2 !! 2)
  ∧ (typiaJsonToOpenAIJsonSchema output_params
       (typiaJsonToOpenAIJsonSchema output_params output_heap).2).2 !! 2
    = (typiaJsonToOpenAIJsonSchema output_params output_heap).2 !! 2.
Proof.
  exact (project_results_distinct output_params output_heap 2 _ 3 _ eq_refl eq_refl).
Defined.

(** X8 (what the selection depends on). Whether the call throws, which
    exception it throws, and the [name] and [schema] of its result depend on
    the mapping only: not on the [strict] flag, and not on what the heap
    holds. *)
Theorem project_selection_independent params h s h' :
  let params' := {| jsonSchema := jsonSchema params; strict := s |} in
  match typiaJsonToOpenAIJsonSchema params h,
        typiaJsonToOpenAIJsonSchema params' h' with
  | (Return r, h1), (Return r', h1') =>
      ∃ o o', h1 !! r = Some o ∧ h1' !! r' = Some o' ∧
              Object.get o "name" = Object.get o' "name" ∧
              Object.get o "schema" = Object.get o' "schema"
  | (Throw e, h1), (Throw e', h1') => e = e' ∧ h1 = h ∧ h1' = h'
  | _, _ => False
  end.
Proof.
  intros params'. rewrite !project_eq. subst params'. simpl.
  destruct (schemas (components (jsonSchema params))) as [| |entries]; [done.. |].
  destruct (Array.at_ (Object.keys entries) 0) as [name|]; [|done].
  destruct (Object.get entries name) as [l|]; [|done].
  eexists _, _. split; [by apply list_lookup_middle|].
  split; [by apply list_lookup_middle|]. done.
Qed.

(** X9 (when the calls return). Each of the two functions returns exactly
    when the mapping is present and has at least one entry. *)
Theorem returns_iff_nonempty params h :
  ((∃ r h1, typiaJsonToOpenAIJsonSchema params h = (Return r, h1)) ↔
     ∃ entries, schemas (components (jsonSchema params)) = Present entries ∧
                entries ≠ [])
  ∧ ((∃ r h1, typiaJsonToOpenAIResponse params h = (Return r, h1)) ↔
       ∃ entries, schemas (components (jsonSchema params)) = Present entries ∧
                  entries ≠ []).
Proof.
  rewrite response_unfold.
  destruct (project_cases params h) as [Hn | He | entries name l Hs Hne Hname Hget].
  - assert (¬ ∃ entries, schemas (components (jsonSchema params)) = Present entries ∧
                         entries ≠ []) as Hno.
    { intros (entries & E & _). by rewrite E in Hn. }
    split; (split; [by intros (? & ? & ?) | by intros ?%Hno]).
  - assert (¬ ∃ entries, schemas (components (jsonSchema params)) = Present entries ∧
                         entries ≠ []) as Hno.
    { intros (entries & E & Hne). rewrite He in E. by injection E as <-. }
    split; (split; [by intros (? & ? & ?) | by intros ?%Hno]).
  - split; (split; [intros _; by exists entries | intros _; by eexists _, _]).
Qed.


